(** * libpt: the DSV parser of [DSV.h] and the string readers of
    [StringReader.h], embedded shallowly.

    The parser is a two-flag state machine that is fed one character at a
    time and drives a callback object (the "sink").  The sink is caller
    code; what the parser does to it is the sequence of callbacks it
    invokes, so a parser method is modelled as a function from the parser's
    fields to a result, the new fields and the list of callbacks invoked,
    in call order. *)

From Stdlib Require Import List Ascii String Bool Arith Lia.
Import ListNotations.

Set Implicit Arguments.

(** ** Characters *)

(** [_CharT] defaults to [char]. *)
Definition CharT : Type := ascii.

(** The literal ['\n']. *)
Definition newline : CharT := "010"%char.

(** The literal ['\0'] that ends a C string. *)
Definition NUL : CharT := zero.

(** ** Callbacks *)

(** One constructor per method that [DSVParser] calls on the sink. *)
Inductive Event : Type :=
| OnRecordStart
| OnFieldCharacter (c : CharT)
| OnFieldEnd
| OnRecordEnd
| OnReset.

Arguments OnFieldCharacter c%_char.

(** ** Parser fields *)

Record DSVParser : Type := mkDSVParser {
  (* true if the parser just parsed an unescaped escape character *)
  Escaping : bool;
  (* true if the parser is in the middle of a record *)
  InRecord : bool
}.

(** [DSVParser() : Escaping(false), InRecord(false)] *)
Definition initial : DSVParser := mkDSVParser false false.

(** ** Method bodies: state over the fields, log of the callbacks *)

Module Method.

Definition M (A : Type) : Type := DSVParser -> A * DSVParser * list Event.

Definition ret {A} (a : A) : M A := fun p => (a, p, []).

Definition bind {A B} (m : M A) (f : A -> M B) : M B :=
  fun p =>
    let '(a, p1, e1) := m p in
    let '(b, p2, e2) := f a p1 in
    (b, p2, e1 ++ e2).

(** A call [AsDerived()->On...()] / [Hooks.On...()]. *)
Definition call (e : Event) : M unit := fun p => (tt, p, [e]).

Definition getEscaping : M bool := fun p => (Escaping p, p, []).
Definition getInRecord : M bool := fun p => (InRecord p, p, []).

Definition setEscaping (b : bool) : M unit :=
  fun p => (tt, mkDSVParser b (InRecord p), []).
Definition setInRecord (b : bool) : M unit :=
  fun p => (tt, mkDSVParser (Escaping p) b, []).

(** An [if] without [else]. *)
Definition when (b : bool) (m : M unit) : M unit :=
  if b then m else ret tt.

(** Fields and callbacks after running a method body. *)
Definition fields {A} (m : M A) (p : DSVParser) : DSVParser := snd (fst (m p)).
Definition calls {A} (m : M A) (p : DSVParser) : list Event := snd (m p).
Definition result {A} (m : M A) (p : DSVParser) : A := fst (fst (m p)).

End Method.

Import Method.

Declare Scope method_scope.
Delimit Scope method_scope with method.
Notation "x <- m ;; k" := (bind m (fun x => k))
  (at level 61, m at next level, right associativity) : method_scope.
Notation "m ;; k" := (bind m (fun _ => k))
  (at level 61, right associativity) : method_scope.
Local Open Scope method_scope.

(** ** The parser's methods *)

Section Parser.

(** [GetSeparator()] and [GetEscape()] of the derived class (the
    [Separator] and [Escape] members of the callbacks type in the
    variant that holds its hooks by value). *)
Variable Separator : CharT.
Variable Escape : CharT.

(** [void HandleParsedCharacter(CharT c)] *)
Definition HandleParsedCharacter (c : CharT) : M unit :=
  esc <- getEscaping ;;
  if esc then
    call (OnFieldCharacter c) ;;
    setEscaping false
  else
    inr <- getInRecord ;;
    when (negb inr && negb (Ascii.eqb c newline))
      (setInRecord true ;;
       call OnRecordStart) ;;
    if Ascii.eqb c Separator then
      call OnFieldEnd
    else if Ascii.eqb c Escape then
      setEscaping true
    else if Ascii.eqb c newline then
      inr' <- getInRecord ;;
      when inr'
        (call OnFieldEnd ;;
         setInRecord false ;;
         call OnRecordEnd)
    else
      call (OnFieldCharacter c).

(** [void FeedCharacter(CharT c)] *)
Definition FeedCharacter (c : CharT) : M unit :=
  HandleParsedCharacter c.

(** [void FinishParsing()]: [Escaping = InRecord = false] assigns
    [InRecord] first, then [Escaping]. *)
Definition FinishParsing : M unit :=
  inr <- getInRecord ;;
  when inr
    (call OnFieldEnd ;;
     setInRecord false ;;
     setEscaping false ;;
     call OnRecordEnd).

(** [void Reset()] *)
Definition Reset : M unit :=
  setInRecord false ;;
  setEscaping false ;;
  call OnReset.

(** Calling [FeedCharacter] once on each character, in order. *)
Fixpoint FeedCharacters (cs : list CharT) : M unit :=
  match cs with
  | [] => ret tt
  | c :: cs' => FeedCharacter c ;; FeedCharacters cs'
  end.

End Parser.

Arguments HandleParsedCharacter (Separator Escape c)%_char.
Arguments FeedCharacter (Separator Escape c)%_char.
Arguments FeedCharacters (Separator Escape)%_char cs.

(** ** Readers ([StringReader.h]) *)

(** [class EOFException]; the readers throw it with a null source. *)
Inductive EOFException : Type := mkEOFException.

(** What [Parse] asks of its [Reader] template argument.  [ReadChar]
    either throws or returns the character and leaves the reader advanced. *)
Class Reader (R : Type) : Type := {
  ReadChar : R -> EOFException + (CharT * R);
  IsEOF : R -> bool
}.

(** [StringReader<String>].  A forward iterator into the unmodified backing
    string is the run of characters from its position to the end of the
    string: [begin()] is the whole string, [end()] is the empty run, [*it]
    is the first character of the run and [it++] drops it. *)
Module StringReader.

Record t : Type := mk {
  BackingString : list CharT;
  Current : list CharT;
  End : list CharT
}.

(** [StringReader(const String &backing_string)] *)
Definition make (backing_string : list CharT) : t :=
  mk backing_string backing_string [].

Definition at_end (r : t) : bool :=
  if list_eq_dec ascii_dec (Current r) (End r) then true else false.

(** [if (Current == End) throw EOFException(nullptr); return *Current++;]
    Dereferencing the end iterator is undefined; the guard keeps a reader
    made by [make] away from it, and the model throws there too. *)
Definition ReadChar (r : t) : EOFException + (CharT * t) :=
  if at_end r then inl mkEOFException
  else match Current r with
       | [] => inl mkEOFException
       | c :: rest => inr (c, mk (BackingString r) rest (End r))
       end.

Definition IsEOF (r : t) : bool := at_end r.

Definition Rewind (r : t) : t := mk (BackingString r) (BackingString r) (End r).

End StringReader.

#[export] Instance StringReader_Reader : Reader StringReader.t :=
  {| ReadChar := StringReader.ReadChar; IsEOF := StringReader.IsEOF |}.

(** [CStringReader].  A [const char *] is the run of memory cells from the
    pointer on; a C string is such a run with a [NUL] cell in it. *)
Module CStringReader.

Record t : Type := mk {
  BackingString : list CharT;
  Current : list CharT
}.

(** [*p]; cells after the modelled run read as [NUL]. *)
Definition deref (p : list CharT) : CharT := hd NUL p.

(** [CStringReader(const char *backing_string)] *)
Definition make (backing_string : list CharT) : t :=
  mk backing_string backing_string.

(** Throws [EOFException(nullptr)] when [*Current] is the terminating
    [NUL]; otherwise [return *Current++;]. *)
Definition ReadChar (r : t) : EOFException + (CharT * t) :=
  if Ascii.eqb (deref (Current r)) NUL then inl mkEOFException
  else inr (deref (Current r), mk (BackingString r) (tl (Current r))).

Definition IsEOF (r : t) : bool := Ascii.eqb (deref (Current r)) NUL.

Definition Rewind (r : t) : t := mk (BackingString r) (BackingString r).

End CStringReader.

#[export] Instance CStringReader_Reader : Reader CStringReader.t :=
  {| ReadChar := CStringReader.ReadChar; IsEOF := CStringReader.IsEOF |}.

(** ** Parsing from a reader *)

Section Parse.

Variable Separator : CharT.
Variable Escape : CharT.
Context {R : Type} {reader_ops : Reader R}.

(** [template <typename Reader> void Parse(Reader &reader)]:
    [try { while (!reader.IsEOF()) HandleParsedCharacter(reader.ReadChar()); }
     catch (EOFException e) {}].
    [fuel] bounds the number of loop tests; [None] is a run that used it
    up.  The reader is taken by reference, so the advanced reader is the
    result. *)
Fixpoint Parse (fuel : nat) (reader : R) : M (option R) :=
  match fuel with
  | 0 => ret None
  | S fuel' =>
      if IsEOF reader then ret (Some reader)
      else
        match ReadChar reader with
        | inl _ => ret (Some reader)
        | inr (c, reader') =>
            HandleParsedCharacter Separator Escape c ;;
            Parse fuel' reader'
        end
  end.

(** [template <typename Reader> void ParseOnly(Reader &reader)] *)
Definition ParseOnly (fuel : nat) (reader : R) : M (option R) :=
  r <- Parse fuel reader ;;
  FinishParsing ;;
  ret r.

End Parse.

Arguments Parse (Separator Escape)%_char {R reader_ops} fuel reader.
Arguments ParseOnly (Separator Escape)%_char {R reader_ops} fuel reader.

(** ** Reading the log *)

Definition isRecordStart (e : Event) : bool :=
  match e with OnRecordStart => true | _ => false end.
Definition isRecordEnd (e : Event) : bool :=
  match e with OnRecordEnd => true | _ => false end.
Definition isFieldCharacter (e : Event) : bool :=
  match e with OnFieldCharacter _ => true | _ => false end.

Definition starts (l : list Event) : nat := List.length (filter isRecordStart l).
Definition ends (l : list Event) : nat := List.length (filter isRecordEnd l).

Definition chars (s : string) : list CharT := list_ascii_of_string s.
Arguments chars s%_string.

(** The usual UNIX configuration, [UnixDSVParser]. *)
Module UnixDSVParser.
Definition Escape : CharT := "\"%char.
Definition Separator : CharT := ":"%char.
End UnixDSVParser.


(** [1] while a record is open, [0] between records. *)
Definition open (p : DSVParser) : nat := if InRecord p then 1 else 0.

(** ** States a caller can bring the parser to *)

Inductive reachable (Separator Escape : CharT) : DSVParser -> Prop :=
| reach_initial :
    reachable Separator Escape initial
| reach_FeedCharacter p c :
    reachable Separator Escape p ->
    reachable Separator Escape (fields (FeedCharacter Separator Escape c) p)
| reach_FinishParsing p :
    reachable Separator Escape p ->
    reachable Separator Escape (fields FinishParsing p)
| reach_Reset p :
    reachable Separator Escape p ->
    reachable Separator Escape (fields Reset p).

Arguments reachable (Separator Escape)%_char p.
Arguments reach_initial (Separator Escape)%_char.
Arguments reach_FeedCharacter {Separator Escape p} c%_char _.
Arguments reach_FinishParsing {Separator Escape p} _.
Arguments reach_Reset {Separator Escape p} _.

(** ** Escape taking priority over the separator

    The reading under which, for a parser whose separator and escape are
    both [k], the character [k] fed in state [p] with [Escaping] clear and
    [InRecord] set acts as the escape character: it sets [Escaping] and
    closes no field. *)
Definition shared_character_escapes (k : CharT) (p : DSVParser) : Prop :=
  Escaping p = false -> InRecord p = true ->
  Escaping (fields (FeedCharacter k k k) p) = true
  /\ ~ In OnFieldEnd (calls (FeedCharacter k k k) p).

Arguments shared_character_escapes k%_char p.

(** ** The record and field protocol of the callbacks

    Where a log stands in the protocol the callbacks document: between
    records, inside a field of a record, or just after an [OnFieldEnd]. *)
Inductive Phase : Type := BetweenRecords | InsideField | AfterFieldEnd.

(** A record starts between records only; field characters and field ends
    come inside a record only; a record ends right after a field end only;
    [OnReset] is no part of a parse. *)
Definition protocol_step (ph : Phase) (e : Event) : option Phase :=
  match ph, e with
  | BetweenRecords, OnRecordStart => Some InsideField
  | InsideField, OnFieldCharacter _ => Some InsideField
  | AfterFieldEnd, OnFieldCharacter _ => Some InsideField
  | InsideField, OnFieldEnd => Some AfterFieldEnd
  | AfterFieldEnd, OnFieldEnd => Some AfterFieldEnd
  | AfterFieldEnd, OnRecordEnd => Some BetweenRecords
  | _, _ => None
  end.

Fixpoint protocol (ph : Phase) (l : list Event) : option Phase :=
  match l with
  | [] => Some ph
  | e :: l' =>
      match protocol_step ph e with
      | Some ph' => protocol ph' l'
      | None => None
      end
  end.

(** The phase and the parser's fields tell the same story: between
    records both flags are clear, inside a record [InRecord] is set. *)
Definition in_phase (ph : Phase) (p : DSVParser) : bool :=
  match ph with
  | BetweenRecords => negb (InRecord p) && negb (Escaping p)
  | InsideField | AfterFieldEnd => InRecord p
  end.

(** ** Writing DSV text

    The text that the parser reads back as given fields: a character of a
    field that is the separator, the escape character or the newline is
    preceded by the escape character; fields are joined by the separator;
    a record is ended by a newline. *)
Section Writing.

Variable Separator : CharT.
Variable Escape : CharT.

Definition special (c : CharT) : bool :=
  Ascii.eqb c Separator || Ascii.eqb c Escape || Ascii.eqb c newline.

Definition quote_character (c : CharT) : list CharT :=
  if special c then [Escape; c] else [c].

Definition quote (field : list CharT) : list CharT :=
  flat_map quote_character field.

Fixpoint join (record : list (list CharT)) : list CharT :=
  match record with
  | [] => []
  | [field] => quote field
  | field :: rest => quote field ++ Separator :: join rest
  end.

Definition write_record (record : list (list CharT)) : list CharT :=
  join record ++ [newline].

Definition write_records (records : list (list (list CharT))) : list CharT :=
  flat_map write_record records.

End Writing.

Arguments special (Separator Escape c)%_char.
Arguments quote (Separator Escape)%_char field.
Arguments write_record (Separator Escape)%_char record.
Arguments write_records (Separator Escape)%_char records.

(** The calls that deliver one record: its start, each field's characters
    followed by the field's end, and the record's end. *)
Definition field_calls (field : list CharT) : list Event :=
  map OnFieldCharacter field ++ [OnFieldEnd].

Definition record_calls (record : list (list CharT)) : list Event :=
  OnRecordStart :: flat_map field_calls record ++ [OnRecordEnd].

(** A record that [write_record] writes as a line of its own: it has a
    field, and it is not the record of one empty field, whose line would be
    blank. *)
Definition writable (record : list (list CharT)) : bool :=
  match record with
  | [] => false
  | [[]] => false
  | _ => true
  end.

(** ** The rest of the parser's life cycle *)


(** The variant of the parser that holds its callbacks object by value, in
    [Hooks].  A callbacks object is known by the calls it has received; a
    default-constructed one has received none. *)
Module Hooked.

Record t : Type := mk {
  parser : DSVParser;
  Hooks : list Event
}.

(** [DSVParser() : Hooks(), Escaping(false), InRecord(false)] *)
Definition fresh : t := mk initial [].

(** A method called on the parser: its calls go to [Hooks]. *)
Definition run {A} (m : M A) (o : t) : t :=
  mk (fields m (parser o)) (Hooks o ++ calls m (parser o)).



End Hooked.

(** ** [DSVStringFieldBuffer] *)

Module DSVStringFieldBuffer.

(** [TField], a [std::basic_string]. *)
Definition TField : Type := list CharT.

(** [Field.push_back(c)] *)
Definition OnFieldCharacter (c : CharT) (Field : TField) : TField := Field ++ [c].

(** [Field.clear()] *)
Definition ClearField (Field : TField) : TField := [].

(** [OnReset] calls [ClearField]. *)
Definition OnReset (Field : TField) : TField := ClearField Field.

End DSVStringFieldBuffer.

(** A callbacks class derived from [DSVStringFieldBuffer] supplies the
    other three hooks, which may do to [Field] what they like. *)
Section DerivedBuffer.

Variable on_record_start on_field_end on_record_end :
  DSVStringFieldBuffer.TField -> DSVStringFieldBuffer.TField.

Definition deliver (Field : DSVStringFieldBuffer.TField) (e : Event)
  : DSVStringFieldBuffer.TField :=
  match e with
  | OnRecordStart => on_record_start Field
  | OnFieldCharacter c => DSVStringFieldBuffer.OnFieldCharacter c Field
  | OnFieldEnd => on_field_end Field
  | OnRecordEnd => on_record_end Field
  | OnReset => DSVStringFieldBuffer.OnReset Field
  end.

Definition deliver_all (l : list Event) (Field : DSVStringFieldBuffer.TField)
  : DSVStringFieldBuffer.TField :=
  fold_left deliver l Field.

End DerivedBuffer.

(** ** [FileReader] *)

Module FileReader.

(** A stdio stream open for reading, as [getc] and [feof] see it: the
    bytes not read yet and the end-of-file indicator.  Read errors are
    left out: [ferror] is 0 throughout. *)
Record FILE : Type := mkFILE {
  unread : list CharT;
  eof_indicator : bool
}.

(** [getc]: the next byte, or [EOF] (here [None]) with the end-of-file
    indicator set when there is none. *)
Definition getc (f : FILE) : option CharT * FILE :=
  match unread f with
  | [] => (None, mkFILE [] true)
  | c :: rest => (Some c, mkFILE rest (eof_indicator f))
  end.

Definition feof (f : FILE) : bool := eof_indicator f.

Record t : Type := mk { File : FILE }.

(** [auto c = getc(File); if (c == -1) throw EOFException(nullptr);
    return c;]  The stream has moved whether or not the call throws. *)
Definition ReadChar (r : t) : (EOFException + CharT) * t :=
  let (c, f) := getc (File r) in
  match c with
  | None => (inl mkEOFException, mk f)
  | Some c' => (inr c', mk f)
  end.

(** [return feof(File) != 0;] *)
Definition IsEOF (r : t) : bool := feof (File r).

(** [return ferror(File) != 0;] *)
Definition Error (r : t) : bool := false.

End FileReader.

(** [Parse] once more, for a reader that [ReadChar] changes even when it
    throws.  [reads] is [ReadChar] with the reader it leaves behind in
    both outcomes. *)
Class ThrowingReader (R : Type) : Type := {
  reads : R -> (EOFException + CharT) * R;
  at_eof : R -> bool
}.


(** A reader of class [Reader] is left as it was by a throw. *)
Definition unchanged_by_throw {R : Type} (reader_ops : Reader R)
  : ThrowingReader R :=
  {| reads := fun r =>
       match ReadChar r with
       | inl e => (inl e, r)
       | inr (c, r') => (inr c, r')
       end;
     at_eof := IsEOF |}.

Section ParseThrowing.

Variable Separator : CharT.
Variable Escape : CharT.
Context {R : Type} {reader_ops : ThrowingReader R}.

(** [try { while (!reader.IsEOF()) HandleParsedCharacter(reader.ReadChar()); }
     catch (EOFException e) {}] *)
Fixpoint ParseThrowing (fuel : nat) (reader : R) : M (option R) :=
  match fuel with
  | 0 => ret None
  | S fuel' =>
      if at_eof reader then ret (Some reader)
      else
        match reads reader with
        | (inl _, reader') => ret (Some reader')
        | (inr c, reader') =>
            HandleParsedCharacter Separator Escape c ;;
            ParseThrowing fuel' reader'
        end
  end.

End ParseThrowing.

Arguments ParseThrowing (Separator Escape)%_char {R reader_ops} fuel reader.

(** ** Parsing the same reader twice *)

Section ParseAgain.

Variable Separator : CharT.
Variable Escape : CharT.
Context {R : Type} {reader_ops : Reader R}.

(** [parser.Parse(reader); between(reader); parser.Parse(reader);] where
    [between] is [Rewind], or nothing. *)
Definition ParseAgain (between : R -> R) (fuel : nat) (reader : R)
  : M (option R) :=
  r <- Parse Separator Escape fuel reader ;;
  match r with
  | Some reader' => Parse Separator Escape fuel (between reader')
  | None => ret None
  end.

End ParseAgain.

Arguments ParseAgain (Separator Escape)%_char {R reader_ops} between fuel reader.

(** Both flags clear, or [InRecord] set: no escape pending between
    records. *)
Definition tidy (p : DSVParser) : bool := implb (Escaping p) (InRecord p).

(** * Properties *)

(** ** Sequencing *)

Lemma calls_bind A B (m : M A) (f : A -> M B) p :
  calls (bind m f) p = calls m p ++ calls (f (result m p)) (fields m p).
Proof.
  unfold calls, fields, result, bind.
  destruct (m p) as [[a p1] e1]; simpl.
  destruct (f a p1) as [[b p2] e2]; reflexivity.
Qed.

Lemma fields_bind A B (m : M A) (f : A -> M B) p :
  fields (bind m f) p = fields (f (result m p)) (fields m p).
Proof.
  unfold fields, result, bind.
  destruct (m p) as [[a p1] e1]; simpl.
  destruct (f a p1) as [[b p2] e2]; reflexivity.
Qed.

Lemma starts_app l1 l2 : starts (l1 ++ l2) = starts l1 + starts l2.
Proof. unfold starts. rewrite filter_app, length_app. reflexivity. Qed.

Lemma ends_app l1 l2 : ends (l1 ++ l2) = ends l1 + ends l2.
Proof. unfold ends. rewrite filter_app, length_app. reflexivity. Qed.

(** Character comparisons are split on, never computed bit by bit. *)
#[local] Arguments Ascii.eqb : simpl never.

(** Unfolds a method body down to the tests it makes on its argument. *)
Ltac unfold_method :=
  unfold FeedCharacter, HandleParsedCharacter, FinishParsing, Reset,
    calls, fields, result, bind, when, call, ret,
    getEscaping, getInRecord, setEscaping, setInRecord; simpl.

(** Splits on every comparison the goal is still waiting on. *)
Ltac split_tests :=
  repeat match goal with
         | |- context [Ascii.eqb ?a ?b] =>
             let E := fresh "E" in destruct (Ascii.eqb a b) eqn:E; simpl
         end.

Section Facts.

Variable Separator : CharT.
Variable Escape : CharT.

Local Abbreviation Feed := (FeedCharacter Separator Escape).
Local Abbreviation Feeds := (FeedCharacters Separator Escape).

Lemma FeedCharacters_app cs1 cs2 p :
  Feeds (cs1 ++ cs2) p = (Feeds cs1 ;; Feeds cs2) p.
Proof.
  revert p. induction cs1 as [|c cs1 IH]; intro p; simpl.
  - unfold bind, ret. destruct (Feeds cs2 p) as [[u q] e]; reflexivity.
  - unfold bind in *. destruct (Feed c p) as [[u q] e].
    rewrite IH.
    destruct (Feeds cs1 q) as [[u1 q1] e1].
    destruct (Feeds cs2 q1) as [[u2 q2] e2].
    rewrite app_assoc. reflexivity.
Qed.

(** One character keeps starts and ends in step with [InRecord]. *)
Lemma FeedCharacter_balance c p :
  starts (calls (Feed c) p) + open p
  = ends (calls (Feed c) p) + open (fields (Feed c) p).
Proof.
  destruct p as [[] []]; unfold_method; split_tests; reflexivity.
Qed.

Lemma FeedCharacters_balance cs p :
  starts (calls (Feeds cs) p) + open p
  = ends (calls (Feeds cs) p) + open (fields (Feeds cs) p).
Proof.
  revert p. induction cs as [|c cs IH]; intro p.
  - reflexivity.
  - simpl FeedCharacters.
    rewrite calls_bind, fields_bind, starts_app, ends_app.
    pose proof (FeedCharacter_balance c p) as H1.
    pose proof (IH (fields (Feed c) p)) as H2.
    destruct (result (Feed c) p). lia.
Qed.

Lemma FinishParsing_balance p :
  starts (calls FinishParsing p) + open p = ends (calls FinishParsing p).
Proof. destruct p as [[] []]; reflexivity. Qed.

End Facts.

(** ** Records: every start is matched *)

(** C1.  For every separator, escape character and input, at every point
    of the feed (after any number [n] of its characters, from the initial
    state) the [OnRecordStart] calls made so far outnumber the
    [OnRecordEnd] calls by one when [InRecord] is set and by none when it
    is clear; and once [FinishParsing] has followed the whole input, the
    two counts are equal. *)
Theorem record_starts_match_ends (Separator Escape : CharT) (cs : list CharT) :
  (forall n,
     let fed := FeedCharacters Separator Escape (firstn n cs) in
     starts (calls fed initial)
     = ends (calls fed initial)
       + (if InRecord (fields fed initial) then 1 else 0))
  /\ (let all := FeedCharacters Separator Escape cs ;; FinishParsing in
      starts (calls all initial) = ends (calls all initial)).
Proof.
  split.
  - intros n fed. subst fed.
    pose proof (FeedCharacters_balance Separator Escape (firstn n cs) initial) as H.
    change (open initial) with 0 in H. unfold open in H. lia.
  - intro all. subst all.
    rewrite calls_bind, starts_app, ends_app.
    pose proof (FeedCharacters_balance Separator Escape cs initial) as H1.
    pose proof (FinishParsing_balance
                  (fields (FeedCharacters Separator Escape cs) initial)) as H2.
    change (open initial) with 0 in H1. unfold open in H1, H2. lia.
Qed.

(** ** Escaping *)

(** C2.  With [Escaping] set, [FeedCharacter c] makes the single call
    [OnFieldCharacter c] and clears [Escaping], leaving [InRecord] as it
    was, whatever [c] is (separator, escape character and newline
    included); and with separator [:] and escape [\], the input
    [a\:b<newline>] gives one record with one field, whose characters are
    [a], [:] and [b]. *)
Theorem escaped_character_is_content :
  (forall (Separator Escape : CharT) (p : DSVParser) (c : CharT),
     Escaping p = true ->
     FeedCharacter Separator Escape c p
     = (tt, mkDSVParser false (InRecord p), [OnFieldCharacter c]))
  /\ calls (FeedCharacters UnixDSVParser.Separator UnixDSVParser.Escape
              (chars "a\:b" ++ [newline])) initial
     = [OnRecordStart; OnFieldCharacter "a"; OnFieldCharacter ":";
        OnFieldCharacter "b"; OnFieldEnd; OnRecordEnd].
Proof.
  split.
  - intros Separator Escape [e i] c H. simpl in H. subst e. reflexivity.
  - reflexivity.
Qed.

Lemma escaped_character_is_content_witness :
  let p := fields (FeedCharacters ":" "\" (chars "a\")) initial in
  Escaping p = true
  /\ FeedCharacter ":" "\" ":" p
     = (tt, mkDSVParser false (InRecord p), [OnFieldCharacter ":"]).
Proof.
  intro p. split.
  - reflexivity.
  - apply (proj1 escaped_character_is_content ":"%char "\"%char p ":"%char).
    reflexivity.
Defined.

(** ** Separator and escape configured as the same character *)

(** C3, refuted as stated.  With [:] as both separator and escape, after
    [a] has opened a record, feeding [:] calls [OnFieldEnd] and leaves
    [Escaping] clear. *)
Lemma shared_character_escapes_fails :
  ~ shared_character_escapes ":" (fields (FeedCharacter ":" ":" "a") initial).
Proof.
  unfold shared_character_escapes. intro H.
  destruct (H eq_refl eq_refl) as [H1 _]. discriminate H1.
Qed.

(** C3, amended.  When separator and escape are the same character [k],
    the separator test comes first: feeding [k] with [Escaping] clear and
    [InRecord] set makes the single call [OnFieldEnd] and changes no
    field, so [Escaping] stays clear. *)
Theorem shared_character_separates (k : CharT) (p : DSVParser) :
  Escaping p = false -> InRecord p = true ->
  FeedCharacter k k k p = (tt, p, [OnFieldEnd]).
Proof.
  destruct p as [e i]; simpl; intros -> ->.
  unfold_method. rewrite Ascii.eqb_refl. reflexivity.
Qed.

Lemma shared_character_separates_witness :
  let p := fields (FeedCharacter ":" ":" "a") initial in
  Escaping p = false /\ InRecord p = true
  /\ FeedCharacter ":" ":" ":" p = (tt, p, [OnFieldEnd]).
Proof.
  intro p. split; [reflexivity|]. split; [reflexivity|].
  apply (@shared_character_separates ":"%char p); reflexivity.
Defined.

(** With separator and escape the same, no call sequence ever sets
    [Escaping]. *)
Lemma shared_character_never_escapes (k : CharT) (p : DSVParser) :
  reachable k k p -> Escaping p = false.
Proof.
  induction 1 as [|p c _ IH|p _ IH|p _ IH]; try reflexivity.
  - destruct p as [e i]; simpl in IH; subst e.
    destruct i; unfold_method; split_tests; reflexivity.
  - destruct p as [e i]; simpl in IH; subst e. destruct i; reflexivity.
Qed.

(** ** Finishing *)

(** C4.  With separator [:] and escape [\], feeding [a], [:], [b] from the
    initial state and then calling [FinishParsing] makes exactly the calls
    [OnRecordStart], [OnFieldCharacter a], [OnFieldEnd],
    [OnFieldCharacter b], [OnFieldEnd], [OnRecordEnd]: the calls that
    feeding [a:b<newline>] makes without [FinishParsing]. *)
Theorem unterminated_record_is_finished :
  calls (FeedCharacters UnixDSVParser.Separator UnixDSVParser.Escape (chars "a:b") ;;
         FinishParsing) initial
  = [OnRecordStart; OnFieldCharacter "a"; OnFieldEnd;
     OnFieldCharacter "b"; OnFieldEnd; OnRecordEnd]
  /\ calls (FeedCharacters UnixDSVParser.Separator UnixDSVParser.Escape (chars "a:b") ;;
            FinishParsing) initial
     = calls (FeedCharacters UnixDSVParser.Separator UnixDSVParser.Escape
                (chars "a:b" ++ [newline])) initial.
Proof. split; reflexivity. Qed.

(** C5.  [FinishParsing] with [InRecord] set calls [OnFieldEnd] then
    [OnRecordEnd] and clears both flags; with [InRecord] clear it makes no
    call and changes no field; so in every state, reachable or not, a
    second [FinishParsing] straight after the first makes no call. *)
Theorem FinishParsing_idempotent (p : DSVParser) :
  FinishParsing p
  = (if InRecord p
     then (tt, mkDSVParser false false, [OnFieldEnd; OnRecordEnd])
     else (tt, p, []))
  /\ calls (FinishParsing ;; FinishParsing) p = calls FinishParsing p
  /\ calls FinishParsing (fields FinishParsing p) = []
  /\ fields FinishParsing (fields FinishParsing p) = fields FinishParsing p.
Proof. destruct p as [[] []]; repeat split. Qed.

(** ** Blank lines *)

(** C6.  When neither the separator nor the escape character is the
    newline, feeding any number [n] of newlines from the initial state
    makes no call and leaves the parser in the initial state. *)
Theorem blank_lines_are_skipped (Separator Escape : CharT) (n : nat) :
  Separator <> newline -> Escape <> newline ->
  FeedCharacters Separator Escape (repeat newline n) initial = (tt, initial, []).
Proof.
  intros Hs He.
  assert (Hstep : FeedCharacter Separator Escape newline initial = (tt, initial, [])).
  { unfold_method.
    destruct (Ascii.eqb newline Separator) eqn:E1.
    { apply Ascii.eqb_eq in E1. congruence. }
    destruct (Ascii.eqb newline Escape) eqn:E2.
    { apply Ascii.eqb_eq in E2. congruence. }
    reflexivity. }
  induction n as [|n IH]; simpl.
  - reflexivity.
  - unfold bind. rewrite Hstep, IH. reflexivity.
Qed.

Lemma blank_lines_are_skipped_witness :
  UnixDSVParser.Separator <> newline /\ UnixDSVParser.Escape <> newline
  /\ FeedCharacters UnixDSVParser.Separator UnixDSVParser.Escape
       [newline; newline] initial = (tt, initial, []).
Proof.
  split; [discriminate|]. split; [discriminate|].
  apply (@blank_lines_are_skipped UnixDSVParser.Separator UnixDSVParser.Escape 2);
    discriminate.
Defined.

(** ** A whole record *)

(** C7.  With separator [:] and escape [\], feeding [a], [:], [b],
    newline from the initial state makes exactly the calls
    [OnRecordStart], [OnFieldCharacter a], [OnFieldEnd],
    [OnFieldCharacter b], [OnFieldEnd], [OnRecordEnd], in this order. *)
Theorem record_of_two_fields :
  calls (FeedCharacters UnixDSVParser.Separator UnixDSVParser.Escape
           ["a"; ":"; "b"; newline]%char) initial
  = [OnRecordStart; OnFieldCharacter "a"; OnFieldEnd;
     OnFieldCharacter "b"; OnFieldEnd; OnRecordEnd].
Proof. reflexivity. Qed.

(** ** The escape flag is only pending inside a record *)

(** C9.  When the escape character is not the newline, every state
    reached from the initial one by [FeedCharacter], [FinishParsing] and
    [Reset] calls that has [Escaping] set has [InRecord] set. *)
Theorem escaping_implies_in_record (Separator Escape : CharT) (p : DSVParser) :
  Escape <> newline ->
  reachable Separator Escape p ->
  Escaping p = true -> InRecord p = true.
Proof.
  intros He Hr.
  induction Hr as [|p c _ IH|p _ IH|p _ IH].
  - discriminate.
  - destruct p as [e i]. simpl in IH.
    destruct e.
    + rewrite (IH eq_refl). reflexivity.
    + clear IH. destruct i; unfold_method; split_tests;
        try reflexivity; try discriminate.
      apply Ascii.eqb_eq in E, E1. congruence.
  - destruct p as [e i]. simpl in IH. destruct i; [discriminate | exact IH].
  - discriminate.
Qed.

Lemma escaping_implies_in_record_witness :
  let p := fields (FeedCharacter ":" "\" "\") (fields (FeedCharacter ":" "\" "a") initial) in
  UnixDSVParser.Escape <> newline
  /\ reachable ":" "\" p
  /\ Escaping p = true
  /\ InRecord p = true.
Proof.
  intro p.
  assert (He : UnixDSVParser.Escape <> newline) by discriminate.
  assert (Hr : reachable ":" "\" p)
    by exact (reach_FeedCharacter "\" (reach_FeedCharacter "a" (reach_initial ":" "\"))).
  assert (Hesc : Escaping p = true) by reflexivity.
  exact (conj He (conj Hr (conj Hesc
           (@escaping_implies_in_record ":"%char "\"%char p He Hr Hesc)))).
Defined.

(** The hypothesis of C9 is needed: with the newline as escape character,
    a newline fed to the idle parser sets [Escaping] and leaves [InRecord]
    clear. *)
Example newline_escape_pends_outside_record :
  fields (FeedCharacter ":" newline newline) initial = mkDSVParser true false.
Proof. reflexivity. Qed.

(** ** A trailing escape character *)

(** C10.  In a state with [InRecord] and [Escaping] both set,
    [FinishParsing] calls [OnFieldEnd] then [OnRecordEnd] and nothing
    else, so no [OnFieldCharacter], and leaves the parser in the initial
    state, both flags clear. *)
Theorem dangling_escape_is_dropped (p : DSVParser) :
  InRecord p = true -> Escaping p = true ->
  FinishParsing p = (tt, initial, [OnFieldEnd; OnRecordEnd])
  /\ filter isFieldCharacter (calls FinishParsing p) = []
  /\ Escaping (fields FinishParsing p) = false
  /\ InRecord (fields FinishParsing p) = false.
Proof.
  destruct p as [e i]; simpl; intros -> ->. repeat split.
Qed.

Lemma dangling_escape_is_dropped_witness :
  let p := fields (FeedCharacters ":" "\" (chars "a\")) initial in
  reachable ":" "\" p
  /\ InRecord p = true /\ Escaping p = true
  /\ FinishParsing p = (tt, initial, [OnFieldEnd; OnRecordEnd])
  /\ filter isFieldCharacter (calls FinishParsing p) = []
  /\ Escaping (fields FinishParsing p) = false
  /\ InRecord (fields FinishParsing p) = false.
Proof.
  intro p.
  split.
  { exact (reach_FeedCharacter "\" (reach_FeedCharacter "a" (reach_initial ":" "\"))). }
  split; [reflexivity|]. split; [reflexivity|].
  apply (@dangling_escape_is_dropped p); reflexivity.
Defined.

(** ** Parsing from a string reader *)

Section ParseFacts.

Variable Separator : CharT.
Variable Escape : CharT.

(** A [StringReader] with the run [s] left to read. *)
Lemma Parse_StringReader_run backing s : forall fuel p,
  List.length s < fuel ->
  Parse Separator Escape fuel (StringReader.mk backing s []) p
  = (Some (StringReader.mk backing [] []),
     fields (FeedCharacters Separator Escape s) p,
     calls (FeedCharacters Separator Escape s) p).
Proof.
  induction s as [|c s IH]; intros [|fuel] p Hlen; simpl in Hlen; try lia.
  - reflexivity.
  - cbn [Parse IsEOF ReadChar StringReader_Reader FeedCharacters].
    unfold StringReader.IsEOF, StringReader.ReadChar, StringReader.at_end.
    cbn [StringReader.Current StringReader.End StringReader.BackingString].
    repeat match goal with
           | |- context [list_eq_dec ?d ?a ?b] =>
               destruct (list_eq_dec d a b) as [Heq|_]; [discriminate Heq|]
           end.
    unfold fields, calls, bind, FeedCharacter.
    destruct (HandleParsedCharacter Separator Escape c p) as [[u q] e].
    rewrite (IH fuel q) by lia.
    unfold fields, calls.
    destruct (FeedCharacters Separator Escape s q) as [[u' q'] e'].
    reflexivity.
Qed.

(** A [CStringReader] with the run [s], free of [NUL], then [NUL], left to
    read. *)
Lemma Parse_CStringReader_run backing rest s : forall fuel p,
  ~ In NUL s ->
  List.length s < fuel ->
  Parse Separator Escape fuel (CStringReader.mk backing (s ++ NUL :: rest)) p
  = (Some (CStringReader.mk backing (NUL :: rest)),
     fields (FeedCharacters Separator Escape s) p,
     calls (FeedCharacters Separator Escape s) p).
Proof.
  induction s as [|c s IH]; intros [|fuel] p Hnul Hlen; simpl in Hlen; try lia.
  - reflexivity.
  - assert (Hc0 : Ascii.eqb c NUL = false).
    { apply Ascii.eqb_neq. intro Heq. apply Hnul. left. exact Heq. }
    cbn [Parse IsEOF ReadChar CStringReader_Reader FeedCharacters].
    unfold CStringReader.IsEOF, CStringReader.ReadChar.
    cbn [CStringReader.Current CStringReader.BackingString
         CStringReader.deref app hd tl].
    rewrite Hc0.
    unfold fields, calls, bind, FeedCharacter.
    destruct (HandleParsedCharacter Separator Escape c p) as [[u q] e].
    rewrite (IH fuel q) by (try lia; intro Hin; apply Hnul; right; exact Hin).
    unfold fields, calls.
    destruct (FeedCharacters Separator Escape s q) as [[u' q'] e'].
    reflexivity.
Qed.

End ParseFacts.

(** C8.  For every string [s], parser state [p] and loop bound [fuel]
    above the length of [s], [Parse] over a [StringReader] made from [s]
    returns normally with the reader at its end, having made exactly the
    calls, and reached exactly the fields, of [FeedCharacter] applied to
    each character of [s] in order: the end of the supply raises nothing
    and [FinishParsing] is not called, so [InRecord] is as the last
    character left it.  The same holds over a [CStringReader] on the C
    string [s] (no [NUL] in [s], a [NUL] after it). *)
Theorem Parse_feeds_every_character
    (Separator Escape : CharT) (s : list CharT) (p : DSVParser) (fuel : nat) :
  List.length s < fuel ->
  Parse Separator Escape fuel (StringReader.make s) p
  = (Some (StringReader.mk s [] []),
     fields (FeedCharacters Separator Escape s) p,
     calls (FeedCharacters Separator Escape s) p)
  /\ IsEOF (StringReader.mk s [] []) = true
  /\ (forall rest, ~ In NUL s ->
        Parse Separator Escape fuel (CStringReader.make (s ++ NUL :: rest)) p
        = (Some (CStringReader.mk (s ++ NUL :: rest) (NUL :: rest)),
           fields (FeedCharacters Separator Escape s) p,
           calls (FeedCharacters Separator Escape s) p)
        /\ IsEOF (CStringReader.mk (s ++ NUL :: rest) (NUL :: rest)) = true).
Proof.
  intro Hlen. split; [|split].
  - apply Parse_StringReader_run. exact Hlen.
  - reflexivity.
  - intros rest Hnul. split.
    + apply Parse_CStringReader_run; assumption.
    + reflexivity.
Qed.

Lemma Parse_feeds_every_character_witness :
  let s := chars "a:b" in
  List.length s < 4
  /\ ~ In NUL s
  /\ Parse ":" "\" 4 (StringReader.make s) initial
     = (Some (StringReader.mk s [] []),
        mkDSVParser false true,
        [OnRecordStart; OnFieldCharacter "a"; OnFieldEnd; OnFieldCharacter "b"])
  /\ Parse ":" "\" 4 (CStringReader.make (s ++ [NUL])) initial
     = (Some (CStringReader.mk (s ++ [NUL]) [NUL]),
        mkDSVParser false true,
        [OnRecordStart; OnFieldCharacter "a"; OnFieldEnd; OnFieldCharacter "b"]).
Proof.
  intro s.
  assert (Hlen : List.length s < 4) by (simpl; lia).
  assert (Hnul : ~ In NUL s).
  { simpl. intros [H|[H|[H|[]]]]; discriminate H. }
  destruct (@Parse_feeds_every_character ":"%char "\"%char s initial 4 Hlen)
    as [H1 [_ H2]].
  destruct (H2 [] Hnul) as [H3 _].
  exact (conj Hlen (conj Hnul (conj H1 H3))).
Defined.

(** [Parse] leaves the record of an unterminated last line open, and
    [ParseOnly] closes it. *)
Example Parse_leaves_record_open :
  InRecord (fields (Parse ":" "\" 4 (StringReader.make (chars "a:b"))) initial) = true
  /\ calls (ParseOnly ":" "\" 4 (StringReader.make (chars "a:b"))) initial
     = [OnRecordStart; OnFieldCharacter "a"; OnFieldEnd;
        OnFieldCharacter "b"; OnFieldEnd; OnRecordEnd].
Proof. split; reflexivity. Qed.

(** A [CStringReader] reads the C string only: [Parse] stops at the first
    [NUL] cell, whatever the cells after it hold. *)
Example Parse_stops_at_NUL :
  Parse ":" "\" 4 (CStringReader.make (chars "a" ++ NUL :: chars "b")) initial
  = (Some (CStringReader.mk (chars "a" ++ NUL :: chars "b") (NUL :: chars "b")),
     mkDSVParser false true,
     [OnRecordStart; OnFieldCharacter "a"]).
Proof. reflexivity. Qed.

(** * Further properties of the parser *)

(** ** Running method bodies in sequence *)

Lemma run_unit (m : M unit) p : m p = (tt, fields m p, calls m p).
Proof.
  unfold fields, calls. destruct (m p) as [[[] q] e]. reflexivity.
Qed.

Lemma protocol_app l1 : forall ph l2,
  protocol ph (l1 ++ l2)
  = match protocol ph l1 with
    | Some ph' => protocol ph' l2
    | None => None
    end.
Proof.
  induction l1 as [|e l1 IH]; intros ph l2; simpl.
  - reflexivity.
  - destruct (protocol_step ph e); [apply IH | reflexivity].
Qed.

(** Turns the comparisons that came out true into equations and looks
    for two that contradict the hypotheses. *)
Ltac clash_tests :=
  repeat match goal with
         | H : Ascii.eqb _ _ = true |- _ => apply Ascii.eqb_eq in H
         end;
  subst; try congruence; try contradiction.

Section Sequences.

Variable Separator : CharT.
Variable Escape : CharT.

Local Abbreviation Feed := (FeedCharacter Separator Escape).
Local Abbreviation Feeds := (FeedCharacters Separator Escape).

Lemma FeedCharacters_cons_run c cs p q r e1 e2 :
  Feed c p = (tt, q, e1) -> Feeds cs q = (tt, r, e2) ->
  Feeds (c :: cs) p = (tt, r, e1 ++ e2).
Proof. intros H1 H2. simpl. unfold bind. rewrite H1, H2. reflexivity. Qed.

Lemma FeedCharacters_app_run cs1 cs2 p q r e1 e2 :
  Feeds cs1 p = (tt, q, e1) -> Feeds cs2 q = (tt, r, e2) ->
  Feeds (cs1 ++ cs2) p = (tt, r, e1 ++ e2).
Proof.
  intros H1 H2. rewrite FeedCharacters_app. unfold bind. rewrite H1, H2. reflexivity.
Qed.

(** One character moves the log one or two steps along the protocol. *)
Lemma FeedCharacter_protocol c ph p :
  Separator <> newline -> Escape <> newline ->
  in_phase ph p = true ->
  exists ph',
    protocol ph (calls (Feed c) p) = Some ph'
    /\ in_phase ph' (fields (Feed c) p) = true.
Proof.
  intros Hs He Hph.
  destruct p as [[] []], ph; simpl in Hph; try discriminate Hph;
    unfold_method; split_tests; simpl;
    try (eexists; split; reflexivity); clash_tests.
Qed.

Lemma FeedCharacters_protocol cs : forall ph p,
  Separator <> newline -> Escape <> newline ->
  in_phase ph p = true ->
  exists ph',
    protocol ph (calls (Feeds cs) p) = Some ph'
    /\ in_phase ph' (fields (Feeds cs) p) = true.
Proof.
  induction cs as [|c cs IH]; intros ph p Hs He Hph.
  - exists ph. split; [reflexivity | exact Hph].
  - destruct (FeedCharacter_protocol c ph p Hs He Hph) as [ph1 [H1 H1']].
    destruct (IH ph1 (fields (Feed c) p) Hs He H1') as [ph2 [H2 H2']].
    exists ph2. simpl FeedCharacters.
    rewrite calls_bind, fields_bind, protocol_app, H1.
    destruct (result (Feed c) p). split; assumption.
Qed.

Lemma FinishParsing_protocol ph p :
  in_phase ph p = true ->
  protocol ph (calls FinishParsing p) = Some BetweenRecords.
Proof.
  destruct p as [[] []], ph; simpl; intro H;
    try discriminate H; reflexivity.
Qed.

End Sequences.

(** ** The callbacks come in the documented order *)

(** X1.  When neither the separator nor the escape character is the
    newline, the calls made while any input is fed from the initial state
    follow the protocol: [OnRecordStart] only between records,
    [OnFieldCharacter] and [OnFieldEnd] only inside a record, [OnRecordEnd]
    only right after an [OnFieldEnd], never [OnReset]; the log stands
    between records exactly when both flags are clear; and with
    [FinishParsing] after the input the log ends between records. *)
Theorem calls_follow_protocol (Separator Escape : CharT) (cs : list CharT) :
  Separator <> newline -> Escape <> newline ->
  (exists ph,
     protocol BetweenRecords (calls (FeedCharacters Separator Escape cs) initial)
     = Some ph
     /\ in_phase ph (fields (FeedCharacters Separator Escape cs) initial) = true)
  /\ protocol BetweenRecords
       (calls (FeedCharacters Separator Escape cs ;; FinishParsing) initial)
     = Some BetweenRecords.
Proof.
  intros Hs He.
  destruct (@FeedCharacters_protocol Separator Escape cs BetweenRecords initial
              Hs He eq_refl) as [ph [H1 H2]].
  split.
  - exists ph. split; assumption.
  - rewrite calls_bind, protocol_app, H1.
    apply FinishParsing_protocol. exact H2.
Qed.

Lemma calls_follow_protocol_witness :
  UnixDSVParser.Separator <> newline /\ UnixDSVParser.Escape <> newline
  /\ (exists ph,
        protocol BetweenRecords (calls (FeedCharacters ":" "\" (chars "a:b\")) initial)
        = Some ph
        /\ in_phase ph (fields (FeedCharacters ":" "\" (chars "a:b\")) initial) = true)
  /\ protocol BetweenRecords
       (calls (FeedCharacters ":" "\" (chars "a:b\") ;; FinishParsing) initial)
     = Some BetweenRecords.
Proof.
  assert (Hs : UnixDSVParser.Separator <> newline) by discriminate.
  assert (He : UnixDSVParser.Escape <> newline) by discriminate.
  exact (conj Hs (conj He
           (@calls_follow_protocol ":"%char "\"%char (chars "a:b\") Hs He))).
Defined.

(** The hypothesis of X1 is needed: with the newline as separator, a
    newline fed to the idle parser closes a field outside any record. *)
Example newline_separator_breaks_protocol :
  calls (FeedCharacter newline "\" newline) initial = [OnFieldEnd]
  /\ protocol BetweenRecords (calls (FeedCharacter newline "\" newline) initial)
     = None.
Proof. split; reflexivity. Qed.

(** ** [FinishParsing] and the final newline *)

(** X2.  When neither the separator nor the escape character is the
    newline and the input leaves no escape pending, [FinishParsing] after
    the input does what one more newline would do: the same calls and the
    same fields. *)
Theorem FinishParsing_is_final_newline
    (Separator Escape : CharT) (cs : list CharT) (p : DSVParser) :
  Separator <> newline -> Escape <> newline ->
  Escaping (fields (FeedCharacters Separator Escape cs) p) = false ->
  (FeedCharacters Separator Escape cs ;; FinishParsing) p
  = FeedCharacters Separator Escape (cs ++ [newline]) p.
Proof.
  intros Hs He Hesc.
  rewrite FeedCharacters_app. unfold bind.
  rewrite (run_unit (FeedCharacters Separator Escape cs) p).
  set (q := fields (FeedCharacters Separator Escape cs) p) in *.
  assert (Hq : FinishParsing q = FeedCharacters Separator Escape [newline] q).
  { destruct q as [e i]. simpl in Hesc. subst e.
    assert (E1 : Ascii.eqb newline Separator = false)
      by (apply Ascii.eqb_neq; congruence).
    assert (E2 : Ascii.eqb newline Escape = false)
      by (apply Ascii.eqb_neq; congruence).
    destruct i; simpl FeedCharacters; unfold_method;
      rewrite E1, E2; reflexivity. }
  rewrite Hq. reflexivity.
Qed.

Lemma FinishParsing_is_final_newline_witness :
  UnixDSVParser.Separator <> newline /\ UnixDSVParser.Escape <> newline
  /\ Escaping (fields (FeedCharacters ":" "\" (chars "a:b")) initial) = false
  /\ (FeedCharacters ":" "\" (chars "a:b") ;; FinishParsing) initial
     = FeedCharacters ":" "\" (chars "a:b" ++ [newline]) initial.
Proof.
  assert (Hs : UnixDSVParser.Separator <> newline) by discriminate.
  assert (He : UnixDSVParser.Escape <> newline) by discriminate.
  exact (conj Hs (conj He (conj eq_refl
           (@FinishParsing_is_final_newline ":"%char "\"%char (chars "a:b")
              initial Hs He eq_refl)))).
Defined.

(** ** Reading back what was written *)

Section ReadingBack.

Variable Separator : CharT.
Variable Escape : CharT.
Hypothesis separator_is_not_escape : Separator <> Escape.

Local Abbreviation Feed := (FeedCharacter Separator Escape).
Local Abbreviation Feeds := (FeedCharacters Separator Escape).

(** The state inside a record with no escape pending. *)
Local Abbreviation inside := (mkDSVParser false true).

Lemma FeedCharacters_quote_character c :
  Feeds (quote_character Separator Escape c) inside
  = (tt, inside, [OnFieldCharacter c]).
Proof.
  unfold quote_character, special.
  destruct (Ascii.eqb c Separator) eqn:E1; simpl orb.
  - simpl FeedCharacters. unfold_method.
    destruct (Ascii.eqb Escape Separator) eqn:E2; [clash_tests|].
    rewrite Ascii.eqb_refl. reflexivity.
  - destruct (Ascii.eqb c Escape) eqn:E2; simpl orb.
    + simpl FeedCharacters. unfold_method.
      destruct (Ascii.eqb Escape Separator) eqn:E3; [clash_tests|].
      rewrite Ascii.eqb_refl. reflexivity.
    + destruct (Ascii.eqb c newline) eqn:E3.
      * simpl FeedCharacters. unfold_method.
        destruct (Ascii.eqb Escape Separator) eqn:E4; [clash_tests|].
        rewrite Ascii.eqb_refl. reflexivity.
      * simpl FeedCharacters. unfold_method.
        rewrite E1, E2, E3. reflexivity.
Qed.

Lemma FeedCharacters_quote field :
  Feeds (quote Separator Escape field) inside
  = (tt, inside, map OnFieldCharacter field).
Proof.
  induction field as [|c field IH].
  - reflexivity.
  - change (quote Separator Escape (c :: field))
      with (quote_character Separator Escape c ++ quote Separator Escape field).
    exact (FeedCharacters_app_run _ _ _ _ _ (FeedCharacters_quote_character c) IH).
Qed.

Lemma FeedCharacter_Separator_inside :
  Feed Separator inside = (tt, inside, [OnFieldEnd]).
Proof. unfold_method. rewrite Ascii.eqb_refl. reflexivity. Qed.

Hypothesis separator_is_not_newline : Separator <> newline.
Hypothesis escape_is_not_newline : Escape <> newline.

Lemma FeedCharacter_newline_inside :
  Feeds [newline] inside = (tt, initial, [OnFieldEnd; OnRecordEnd]).
Proof.
  simpl FeedCharacters. unfold_method.
  destruct (Ascii.eqb newline Separator) eqn:E1; [clash_tests|].
  destruct (Ascii.eqb newline Escape) eqn:E2; [clash_tests|].
  reflexivity.
Qed.

(** The rest of a record's line, read from inside the record. *)
Lemma FeedCharacters_join record :
  record <> [] ->
  Feeds (write_record Separator Escape record) inside
  = (tt, initial, flat_map field_calls record ++ [OnRecordEnd]).
Proof.
  unfold write_record.
  induction record as [|field rest IH]; intro Hne; [congruence|].
  destruct rest as [|field' rest'].
  - simpl join. simpl flat_map. unfold field_calls.
    rewrite app_nil_r, <- app_assoc.
    exact (FeedCharacters_app_run _ _ _ _ _ (FeedCharacters_quote field)
             FeedCharacter_newline_inside).
  - change (join Separator Escape (field :: field' :: rest'))
      with (quote Separator Escape field
            ++ Separator :: join Separator Escape (field' :: rest')).
    rewrite <- app_assoc.
    change (flat_map field_calls (field :: field' :: rest'))
      with (field_calls field ++ flat_map field_calls (field' :: rest')).
    unfold field_calls at 1. rewrite <- !app_assoc.
    assert (Hrest : field' :: rest' <> []) by discriminate.
    exact (FeedCharacters_app_run _ _ _ _ _ (FeedCharacters_quote field)
             (FeedCharacters_cons_run _ _ _ _ _ FeedCharacter_Separator_inside
                (IH Hrest))).
Qed.

(** A character other than the newline, fed to the idle parser, starts a
    record and is then handled as inside the record. *)
Lemma FeedCharacter_starts_record c :
  c <> newline ->
  Feed c initial
  = (tt, fields (Feed c) inside, OnRecordStart :: calls (Feed c) inside).
Proof.
  intro Hc. unfold_method.
  destruct (Ascii.eqb c newline) eqn:E; [clash_tests|].
  simpl. split_tests; reflexivity.
Qed.

Lemma write_record_first record :
  writable record = true ->
  exists c cs, write_record Separator Escape record = c :: cs /\ c <> newline.
Proof.
  unfold write_record.
  destruct record as [|[|c field] rest]; simpl writable; intro Hw;
    try discriminate Hw.
  - destruct rest as [|field' rest']; [discriminate Hw|].
    exists Separator. eexists. split; [reflexivity | assumption].
  - assert (Hq : exists d ds,
               quote Separator Escape (c :: field) = d :: ds /\ d <> newline).
    { change (quote Separator Escape (c :: field))
        with (quote_character Separator Escape c ++ quote Separator Escape field).
      unfold quote_character, special.
      destruct (Ascii.eqb c Separator) eqn:E1; simpl orb.
      { exists Escape. eexists. split; [reflexivity | assumption]. }
      destruct (Ascii.eqb c Escape) eqn:E2; simpl orb.
      { exists Escape. eexists. split; [reflexivity | assumption]. }
      destruct (Ascii.eqb c newline) eqn:E3.
      { exists Escape. eexists. split; [reflexivity | assumption]. }
      exists c. eexists. split; [reflexivity|].
      apply Ascii.eqb_neq. exact E3. }
    destruct Hq as [d [ds [Hq Hd]]].
    exists d. destruct rest as [|field' rest'].
    + change (join Separator Escape [c :: field])
        with (quote Separator Escape (c :: field)).
      rewrite Hq. eexists. split; [reflexivity | exact Hd].
    + change (join Separator Escape ((c :: field) :: field' :: rest'))
        with (quote Separator Escape (c :: field)
              ++ Separator :: join Separator Escape (field' :: rest')).
      rewrite Hq. eexists. split; [reflexivity | exact Hd].
Qed.

Lemma FeedCharacters_write_record record :
  writable record = true ->
  Feeds (write_record Separator Escape record) initial
  = (tt, initial, record_calls record).
Proof.
  intro Hw.
  assert (Hne : record <> []) by (destruct record; [discriminate Hw | discriminate]).
  pose proof (FeedCharacters_join Hne) as Hin.
  destruct (write_record_first record Hw) as [c [cs [Hcs Hc]]].
  rewrite Hcs in *.
  simpl FeedCharacters in *. unfold bind in *.
  rewrite (FeedCharacter_starts_record Hc).
  rewrite (run_unit (Feed c) inside) in Hin.
  destruct (Feeds cs (fields (Feed c) inside)) as [[u q] e].
  inversion Hin; subst. unfold record_calls.
  rewrite <- H2. reflexivity.
Qed.

Lemma FeedCharacters_write_records records :
  forallb writable records = true ->
  Feeds (write_records Separator Escape records) initial
  = (tt, initial, flat_map record_calls records).
Proof.
  induction records as [|record records IH]; intro Hw.
  - reflexivity.
  - simpl in Hw. apply andb_prop in Hw. destruct Hw as [Hw1 Hw2].
    exact (FeedCharacters_app_run _ _ _ _ _ (FeedCharacters_write_record record Hw1)
             (IH Hw2)).
Qed.

End ReadingBack.

(** X3.  When the separator is not the escape character, a field written
    with every separator, escape character and newline in it preceded by
    the escape character is read back, inside a record with no escape
    pending, as exactly its own characters: one [OnFieldCharacter] each, in
    order, no other call, and the fields of the parser unchanged. *)
Theorem quoted_field_is_delivered
    (Separator Escape : CharT) (field : list CharT) (p : DSVParser) :
  Separator <> Escape ->
  Escaping p = false -> InRecord p = true ->
  FeedCharacters Separator Escape (quote Separator Escape field) p
  = (tt, p, map OnFieldCharacter field).
Proof.
  intros Hne He Hi. destruct p as [e i]. simpl in He, Hi. subst e i.
  apply FeedCharacters_quote. exact Hne.
Qed.

Lemma quoted_field_is_delivered_witness :
  let p := fields (FeedCharacter ":" "\" "x") initial in
  UnixDSVParser.Separator <> UnixDSVParser.Escape
  /\ Escaping p = false /\ InRecord p = true
  /\ FeedCharacters ":" "\" (quote ":" "\" (chars "a:\" ++ [newline])) p
     = (tt, p, map OnFieldCharacter (chars "a:\" ++ [newline])).
Proof.
  intro p.
  assert (Hne : UnixDSVParser.Separator <> UnixDSVParser.Escape) by discriminate.
  exact (conj Hne (conj eq_refl (conj eq_refl
           (@quoted_field_is_delivered ":"%char "\"%char
              (chars "a:\" ++ [newline]) p Hne eq_refl eq_refl)))).
Defined.

(** X4.  When separator, escape character and newline are three different
    characters, any list of records, each with at least one field and none
    made of a single empty field, written as text (fields quoted and joined
    by the separator, a newline after each record) and fed from the
    initial state is delivered as exactly those records: per record
    [OnRecordStart], per field its characters and [OnFieldEnd], then
    [OnRecordEnd]; and the parser is back in the initial state. *)
Theorem written_records_are_read_back
    (Separator Escape : CharT) (records : list (list (list CharT))) :
  Separator <> Escape -> Separator <> newline -> Escape <> newline ->
  forallb writable records = true ->
  FeedCharacters Separator Escape (write_records Separator Escape records) initial
  = (tt, initial, flat_map record_calls records).
Proof.
  intros H1 H2 H3 Hw. apply FeedCharacters_write_records; assumption.
Qed.

Lemma written_records_are_read_back_witness :
  let records := [[chars "a:b"; []; chars "\c"]; [[]; chars "d"]] in
  UnixDSVParser.Separator <> UnixDSVParser.Escape
  /\ UnixDSVParser.Separator <> newline
  /\ UnixDSVParser.Escape <> newline
  /\ forallb writable records = true
  /\ FeedCharacters ":" "\" (write_records ":" "\" records) initial
     = (tt, initial, flat_map record_calls records).
Proof.
  intro records.
  assert (H1 : UnixDSVParser.Separator <> UnixDSVParser.Escape) by discriminate.
  assert (H2 : UnixDSVParser.Separator <> newline) by discriminate.
  assert (H3 : UnixDSVParser.Escape <> newline) by discriminate.
  exact (conj H1 (conj H2 (conj H3 (conj eq_refl
           (@written_records_are_read_back ":"%char "\"%char records
              H1 H2 H3 eq_refl))))).
Defined.

(** ** Which characters reach a field *)

(** X5.  One [FeedCharacter c] calls [OnFieldCharacter] on a character
    exactly when that character is [c] itself and either an escape was
    pending or [c] is none of separator, escape character and newline. *)
Theorem field_character_delivered_iff
    (Separator Escape : CharT) (p : DSVParser) (c c' : CharT) :
  In (OnFieldCharacter c') (calls (FeedCharacter Separator Escape c) p)
  <-> c' = c /\ (Escaping p = true \/ special Separator Escape c = false).
Proof.
  unfold special.
  destruct p as [[] i]; [|destruct i]; unfold_method; split_tests; simpl;
    (split;
     [ intro H;
       repeat match goal with
              | H : _ \/ _ |- _ => destruct H
              | H : False |- _ => destruct H
              | H : OnFieldCharacter _ = OnFieldCharacter _ |- _ =>
                  injection H as H; subst
              | H : _ = OnFieldCharacter _ |- _ => discriminate H
              end;
       try (split; [reflexivity | auto])
     | intros [-> [H|H]]; try discriminate H; auto ]).
Qed.

(** ** How many calls a character makes *)

(** X6.  Feeding makes at most two calls per character, from any state,
    and [FinishParsing] at most two more. *)
Theorem calls_are_bounded
    (Separator Escape : CharT) (cs : list CharT) (p : DSVParser) :
  List.length (calls (FeedCharacters Separator Escape cs) p)
  <= 2 * List.length cs
  /\ List.length (calls (FeedCharacters Separator Escape cs ;; FinishParsing) p)
     <= 2 * List.length cs + 2.
Proof.
  assert (Hstep : forall c q,
            List.length (calls (FeedCharacter Separator Escape c) q) <= 2).
  { intros c [[] []]; unfold_method; split_tests; simpl; lia. }
  assert (Hall : forall l q,
            List.length (calls (FeedCharacters Separator Escape l) q)
            <= 2 * List.length l).
  { induction l as [|c l IH]; intro q.
    - simpl. lia.
    - simpl FeedCharacters. rewrite calls_bind, length_app.
      pose proof (Hstep c q).
      pose proof (IH (fields (FeedCharacter Separator Escape c) q)).
      destruct (result (FeedCharacter Separator Escape c) q).
      simpl List.length. lia. }
  split; [apply Hall|].
  rewrite calls_bind, length_app. pose proof (Hall cs p) as H.
  assert (Hfin : forall q, List.length (calls FinishParsing q) <= 2)
    by (intros [[] []]; simpl; lia).
  pose proof (Hfin (fields (FeedCharacters Separator Escape cs) p)).
  destruct (result (FeedCharacters Separator Escape cs) p). lia.
Qed.

(** ** Resetting *)

Lemma Reset_then A (m : M A) p :
  bind Reset (fun _ => m) p
  = (result m initial, fields m initial, OnReset :: calls m initial).
Proof.
  unfold result, fields, calls, bind.
  destruct p as [e i]. unfold initial. simpl.
  destruct (m (mkDSVParser false false)) as [[a q] l]. reflexivity.
Qed.

(** X7.  Whatever state the parser is in, [Reset] makes the one call
    [OnReset] and what is fed next is handled as from the initial state.
    A record open at the time is abandoned, not ended: with [Reset] in the
    middle of an input and [FinishParsing] at its end, the [OnRecordStart]
    calls outnumber the [OnRecordEnd] calls by one if [InRecord] was set
    when [Reset] was called, and by none otherwise. *)
Theorem Reset_abandons_open_record
    (Separator Escape : CharT) (cs1 cs2 : list CharT) (p : DSVParser) :
  (Reset ;; FeedCharacters Separator Escape cs2) p
  = (tt, fields (FeedCharacters Separator Escape cs2) initial,
     OnReset :: calls (FeedCharacters Separator Escape cs2) initial)
  /\ (let all := FeedCharacters Separator Escape cs1 ;; Reset ;;
                 FeedCharacters Separator Escape cs2 ;; FinishParsing in
      starts (calls all initial)
      = ends (calls all initial)
        + (if InRecord (fields (FeedCharacters Separator Escape cs1) initial)
           then 1 else 0)).
Proof.
  split.
  - rewrite Reset_then.
    destruct (result (FeedCharacters Separator Escape cs2) initial).
    reflexivity.
  - intro all. subst all.
    rewrite calls_bind, starts_app, ends_app.
    unfold calls at 2 4. rewrite Reset_then. cbn [snd].
    change (starts (OnReset :: ?l)) with (starts l).
    change (ends (OnReset :: ?l)) with (ends l).
    rewrite calls_bind, starts_app, ends_app.
    pose proof (FeedCharacters_balance Separator Escape cs1 initial) as H1.
    pose proof (FeedCharacters_balance Separator Escape cs2 initial) as H2.
    pose proof (FinishParsing_balance
                  (fields (FeedCharacters Separator Escape cs2) initial)) as H3.
    change (open initial) with 0 in H1, H2. unfold open in H1, H2, H3.
    destruct (result (FeedCharacters Separator Escape cs2) initial).
    lia.
Qed.

(** ** No escape pending between records *)

Section Tidy.

Variable Separator : CharT.
Variable Escape : CharT.
Hypothesis escape_is_not_newline : Escape <> newline.

Lemma FeedCharacter_tidy c p :
  tidy p = true -> tidy (fields (FeedCharacter Separator Escape c) p) = true.
Proof.
  destruct p as [[] []]; unfold tidy; simpl; intro H; try discriminate H;
    unfold_method; split_tests; try reflexivity; clash_tests.
Qed.

Lemma FeedCharacters_tidy cs : forall p,
  tidy p = true -> tidy (fields (FeedCharacters Separator Escape cs) p) = true.
Proof.
  induction cs as [|c cs IH]; intros p H.
  - exact H.
  - simpl FeedCharacters. rewrite fields_bind. apply IH.
    apply FeedCharacter_tidy. exact H.
Qed.

End Tidy.

Lemma FinishParsing_tidy p :
  tidy p = true -> fields FinishParsing p = initial.
Proof. destruct p as [[] []]; unfold tidy; simpl; intro H; try discriminate H; reflexivity. Qed.

(** ** [ParseOnly] *)

(** X8.  [ParseOnly] over a [StringReader] made from [s], with a loop
    bound above the length of [s], returns with the reader at its end and
    makes the calls of [FeedCharacter] on each character of [s] followed
    by [FinishParsing].  From the initial state it leaves no record open
    and as many [OnRecordStart] as [OnRecordEnd] calls; and when the escape
    character is not the newline it leaves the parser in the initial
    state. *)
Theorem ParseOnly_closes_the_record
    (Separator Escape : CharT) (s : list CharT) (p : DSVParser) (fuel : nat) :
  List.length s < fuel ->
  let run := ParseOnly Separator Escape fuel (StringReader.make s) in
  run p
  = (Some (StringReader.mk s [] []),
     fields (FeedCharacters Separator Escape s ;; FinishParsing) p,
     calls (FeedCharacters Separator Escape s ;; FinishParsing) p)
  /\ InRecord (fields run p) = false
  /\ starts (calls run initial) = ends (calls run initial)
  /\ (Escape <> newline -> fields run initial = initial).
Proof.
  intros Hlen run.
  assert (Hrun : forall q,
            run q
            = (Some (StringReader.mk s [] []),
               fields (FeedCharacters Separator Escape s ;; FinishParsing) q,
               calls (FeedCharacters Separator Escape s ;; FinishParsing) q)).
  { intro q. subst run. unfold ParseOnly, StringReader.make.
    unfold bind at 1.
    rewrite (Parse_StringReader_run Separator Escape s s q Hlen).
    unfold bind at 1.
    rewrite (run_unit FinishParsing
               (fields (FeedCharacters Separator Escape s) q)).
    unfold ret. rewrite app_nil_r.
    rewrite fields_bind, calls_bind.
    destruct (result (FeedCharacters Separator Escape s) q). reflexivity. }
  split; [apply Hrun|].
  assert (Hf : forall q,
            fields run q
            = fields (FeedCharacters Separator Escape s ;; FinishParsing) q)
    by (intro q; unfold fields at 1; rewrite Hrun; reflexivity).
  assert (Hc : forall q,
            calls run q
            = calls (FeedCharacters Separator Escape s ;; FinishParsing) q)
    by (intro q; unfold calls at 1; rewrite Hrun; reflexivity).
  rewrite !Hf, !Hc.
  split; [|split].
  - rewrite fields_bind.
    destruct (fields (FeedCharacters Separator Escape s) p) as [[] []];
      reflexivity.
  - rewrite calls_bind, starts_app, ends_app.
    pose proof (FeedCharacters_balance Separator Escape s initial) as H1.
    pose proof (FinishParsing_balance
                  (fields (FeedCharacters Separator Escape s) initial)) as H2.
    change (open initial) with 0 in H1. unfold open in H1, H2.
    destruct (result (FeedCharacters Separator Escape s) initial). lia.
  - intro He. rewrite fields_bind. apply FinishParsing_tidy.
    apply FeedCharacters_tidy; [exact He | reflexivity].
Qed.

Lemma ParseOnly_closes_the_record_witness :
  let s := chars "a:b\" in
  let run := ParseOnly ":" "\" 5 (StringReader.make s) in
  List.length s < 5
  /\ UnixDSVParser.Escape <> newline
  /\ run initial
     = (Some (StringReader.mk s [] []), initial,
        [OnRecordStart; OnFieldCharacter "a"; OnFieldEnd; OnFieldCharacter "b";
         OnFieldEnd; OnRecordEnd])
  /\ fields run initial = initial.
Proof.
  intros s run.
  assert (Hlen : List.length s < 5) by (simpl; lia).
  assert (He : UnixDSVParser.Escape <> newline) by discriminate.
  destruct (@ParseOnly_closes_the_record ":"%char "\"%char s initial 5 Hlen)
    as [H1 [_ [_ H4]]].
  exact (conj Hlen (conj He (conj H1 (H4 He)))).
Defined.

(** Without the hypothesis on the escape character the last part fails:
    with the newline as escape character, [ParseOnly] over a lone newline
    leaves [Escaping] set. *)
Example ParseOnly_newline_escape :
  fields (ParseOnly ":" newline 2 (StringReader.make [newline])) initial
  = mkDSVParser true false.
Proof. reflexivity. Qed.

(** ** Parsing in pieces *)

Section Projections.

Variable Separator : CharT.
Variable Escape : CharT.

Lemma FeedCharacters_app_fields cs1 cs2 p :
  fields (FeedCharacters Separator Escape (cs1 ++ cs2)) p
  = fields (FeedCharacters Separator Escape cs2)
      (fields (FeedCharacters Separator Escape cs1) p).
Proof.
  unfold fields at 1. rewrite FeedCharacters_app.
  fold (fields (FeedCharacters Separator Escape cs1 ;;
                FeedCharacters Separator Escape cs2) p).
  rewrite fields_bind.
  destruct (result (FeedCharacters Separator Escape cs1) p). reflexivity.
Qed.

Lemma FeedCharacters_app_calls cs1 cs2 p :
  calls (FeedCharacters Separator Escape (cs1 ++ cs2)) p
  = calls (FeedCharacters Separator Escape cs1) p
    ++ calls (FeedCharacters Separator Escape cs2)
         (fields (FeedCharacters Separator Escape cs1) p).
Proof.
  unfold calls at 1. rewrite FeedCharacters_app.
  fold (calls (FeedCharacters Separator Escape cs1 ;;
               FeedCharacters Separator Escape cs2) p).
  rewrite calls_bind.
  destruct (result (FeedCharacters Separator Escape cs1) p). reflexivity.
Qed.

Lemma Parse_StringReader_result s p fuel :
  List.length s < fuel ->
  result (Parse Separator Escape fuel (StringReader.make s)) p
  = Some (StringReader.mk s [] []).
Proof.
  intro H. unfold result, StringReader.make.
  rewrite (Parse_StringReader_run Separator Escape s s p H). reflexivity.
Qed.

Lemma Parse_StringReader_fields s p fuel :
  List.length s < fuel ->
  fields (Parse Separator Escape fuel (StringReader.make s)) p
  = fields (FeedCharacters Separator Escape s) p.
Proof.
  intro H. unfold fields at 1. unfold StringReader.make.
  rewrite (Parse_StringReader_run Separator Escape s s p H). reflexivity.
Qed.

Lemma Parse_StringReader_calls s p fuel :
  List.length s < fuel ->
  calls (Parse Separator Escape fuel (StringReader.make s)) p
  = calls (FeedCharacters Separator Escape s) p.
Proof.
  intro H. unfold calls at 1. unfold StringReader.make.
  rewrite (Parse_StringReader_run Separator Escape s s p H). reflexivity.
Qed.

End Projections.

(** X9.  [Parse] can be resumed: parsing a [StringReader] made from [s1]
    and then one made from [s2] makes the calls, and reaches the fields,
    of parsing one made from [s1 ++ s2], whatever state the parser starts
    in and wherever the cut falls. *)
Theorem Parse_resumes
    (Separator Escape : CharT) (s1 s2 : list CharT) (p : DSVParser)
    (fuel1 fuel2 fuel : nat) :
  List.length s1 < fuel1 -> List.length s2 < fuel2 ->
  List.length (s1 ++ s2) < fuel ->
  let pieces := Parse Separator Escape fuel1 (StringReader.make s1) ;;
                Parse Separator Escape fuel2 (StringReader.make s2) in
  let whole := Parse Separator Escape fuel (StringReader.make (s1 ++ s2)) in
  fields pieces p = fields whole p /\ calls pieces p = calls whole p.
Proof.
  intros H1 H2 H pieces whole. subst pieces whole.
  rewrite fields_bind, calls_bind.
  rewrite !Parse_StringReader_fields, !Parse_StringReader_calls by assumption.
  rewrite FeedCharacters_app_fields, FeedCharacters_app_calls.
  split; reflexivity.
Qed.

Lemma Parse_resumes_witness :
  let pieces := Parse ":" "\" 3 (StringReader.make (chars "a\")) ;;
                Parse ":" "\" 3 (StringReader.make (chars ":b")) in
  let whole := Parse ":" "\" 5 (StringReader.make (chars "a\:b")) in
  2 < 3 /\ 4 < 5
  /\ fields pieces initial = fields whole initial
  /\ calls pieces initial = calls whole initial.
Proof.
  intros pieces whole.
  assert (H1 : List.length (chars "a\") < 3) by (simpl; lia).
  assert (H2 : List.length (chars ":b") < 3) by (simpl; lia).
  assert (H : List.length (chars "a\" ++ chars ":b") < 5) by (simpl; lia).
  exact (conj H1 (conj H
           (@Parse_resumes ":"%char "\"%char (chars "a\") (chars ":b") initial
              3 3 5 H1 H2 H))).
Defined.

(** ** Rewinding a reader *)

(** X10.  After [Parse] has run a [StringReader] made from [s] to its end,
    [Rewind] puts the reader back as it was made, so that a second [Parse]
    delivers [s] once more, continuing from the state the first left: the
    calls and fields are those of feeding [s ++ s].  Without [Rewind] the
    second [Parse] reads nothing and makes no call.  The same holds for a
    [CStringReader] on the C string [s]. *)
Theorem Rewind_replays
    (Separator Escape : CharT) (s : list CharT) (p : DSVParser) (fuel : nat) :
  List.length s < fuel ->
  ParseAgain Separator Escape StringReader.Rewind fuel (StringReader.make s) p
  = (Some (StringReader.mk s [] []),
     fields (FeedCharacters Separator Escape (s ++ s)) p,
     calls (FeedCharacters Separator Escape (s ++ s)) p)
  /\ ParseAgain Separator Escape (fun r => r) fuel (StringReader.make s) p
     = (Some (StringReader.mk s [] []),
        fields (FeedCharacters Separator Escape s) p,
        calls (FeedCharacters Separator Escape s) p)
  /\ (forall rest, ~ In NUL s ->
        let memory := s ++ NUL :: rest in
        ParseAgain Separator Escape CStringReader.Rewind fuel
          (CStringReader.make memory) p
        = (Some (CStringReader.mk memory (NUL :: rest)),
           fields (FeedCharacters Separator Escape (s ++ s)) p,
           calls (FeedCharacters Separator Escape (s ++ s)) p)
        /\ ParseAgain Separator Escape (fun r => r) fuel
             (CStringReader.make memory) p
           = (Some (CStringReader.mk memory (NUL :: rest)),
              fields (FeedCharacters Separator Escape s) p,
              calls (FeedCharacters Separator Escape s) p)).
Proof.
  intro Hlen.
  assert (Hfuel : exists fuel', fuel = S fuel')
    by (destruct fuel; [inversion Hlen | eexists; reflexivity]).
  destruct Hfuel as [fuel' ->].
  split; [|split].
  - unfold ParseAgain, StringReader.make, bind.
    rewrite (Parse_StringReader_run Separator Escape s s p Hlen).
    unfold StringReader.Rewind.
    cbn [StringReader.BackingString StringReader.End].
    rewrite (Parse_StringReader_run Separator Escape s s _ Hlen).
    rewrite FeedCharacters_app_fields, FeedCharacters_app_calls. reflexivity.
  - unfold ParseAgain, StringReader.make, bind.
    rewrite (Parse_StringReader_run Separator Escape s s p Hlen).
    cbn [Parse IsEOF StringReader_Reader].
    change (StringReader.IsEOF (StringReader.mk s [] [])) with true.
    unfold ret. rewrite app_nil_r. reflexivity.
  - intros rest Hnul memory. subst memory. split.
    + unfold ParseAgain, CStringReader.make, bind.
      rewrite (Parse_CStringReader_run Separator Escape _ rest s p Hnul Hlen).
      unfold CStringReader.Rewind. cbn [CStringReader.BackingString].
      rewrite (Parse_CStringReader_run Separator Escape _ rest s _ Hnul Hlen).
      rewrite FeedCharacters_app_fields, FeedCharacters_app_calls. reflexivity.
    + unfold ParseAgain, CStringReader.make, bind.
      rewrite (Parse_CStringReader_run Separator Escape _ rest s p Hnul Hlen).
      cbn [Parse IsEOF CStringReader_Reader].
      change (CStringReader.IsEOF
                (CStringReader.mk (s ++ NUL :: rest) (NUL :: rest))) with true.
      unfold ret. rewrite app_nil_r. reflexivity.
Qed.

Lemma Rewind_replays_witness :
  let s := chars "a:b" in
  List.length s < 4 /\ ~ In NUL s
  /\ calls (ParseAgain ":" "\" StringReader.Rewind 4 (StringReader.make s)) initial
     = [OnRecordStart; OnFieldCharacter "a"; OnFieldEnd; OnFieldCharacter "b";
        OnFieldCharacter "a"; OnFieldEnd; OnFieldCharacter "b"]
  /\ calls (ParseAgain ":" "\" CStringReader.Rewind 4
              (CStringReader.make (s ++ [NUL]))) initial
     = [OnRecordStart; OnFieldCharacter "a"; OnFieldEnd; OnFieldCharacter "b";
        OnFieldCharacter "a"; OnFieldEnd; OnFieldCharacter "b"].
Proof.
  intro s.
  assert (Hlen : List.length s < 4) by (simpl; lia).
  assert (Hnul : ~ In NUL s).
  { simpl. intros [H|[H|[H|[]]]]; discriminate H. }
  destruct (@Rewind_replays ":"%char "\"%char s initial 4 Hlen) as [H1 [_ H3]].
  destruct (H3 [] Hnul) as [H4 _].
  split; [exact Hlen|]. split; [exact Hnul|]. split.
  - unfold calls. rewrite H1. reflexivity.
  - unfold calls. rewrite H4. reflexivity.
Defined.

(** ** Parsing a file *)

Section FileFacts.

Variable Separator : CharT.
Variable Escape : CharT.

(** For a reader that a throw leaves unchanged the two renderings of
    [Parse] are one. *)
Lemma ParseThrowing_agrees R (reader_ops : Reader R) fuel : forall (reader : R) p,
  @ParseThrowing Separator Escape R (unchanged_by_throw reader_ops) fuel reader p
  = Parse Separator Escape fuel reader p.
Proof.
  induction fuel as [|fuel IH]; intros reader p.
  - reflexivity.
  - simpl. destruct (IsEOF reader); [reflexivity|].
    destruct (ReadChar reader) as [e|[c reader']]; [reflexivity|].
    unfold bind.
    destruct (HandleParsedCharacter Separator Escape c p) as [[u q] l].
    rewrite IH. reflexivity.
Qed.


End FileFacts.



(** ** Moving a parser *)



(** ** Buffering a field *)

(** X13.  With a callbacks class derived from [DSVStringFieldBuffer],
    whatever its own three hooks do, a field written with its separators,
    escape characters and newlines escaped and read inside a record with no
    escape pending is appended to [Field] character for character (the
    separator not being the escape character); and [Reset] on the parser,
    in any state, empties [Field]. *)
Theorem Field_buffers_quoted_field
    (on_record_start on_field_end on_record_end :
       DSVStringFieldBuffer.TField -> DSVStringFieldBuffer.TField)
    (Separator Escape : CharT) (field : list CharT) (p : DSVParser)
    (Field : DSVStringFieldBuffer.TField) :
  Separator <> Escape ->
  Escaping p = false -> InRecord p = true ->
  deliver_all on_record_start on_field_end on_record_end
    (calls (FeedCharacters Separator Escape (quote Separator Escape field)) p)
    Field
  = Field ++ field
  /\ (forall q,
        deliver_all on_record_start on_field_end on_record_end
          (calls Reset q) Field
        = []).
Proof.
  intros Hne He Hi. split; [|intros [e i]; reflexivity].
  destruct p as [e i]. simpl in He, Hi. subst e i.
  unfold calls. rewrite (FeedCharacters_quote Hne). cbn [snd].
  unfold deliver_all. revert Field.
  induction field as [|c field IH]; intro Field; simpl.
  - rewrite app_nil_r. reflexivity.
  - rewrite IH. unfold DSVStringFieldBuffer.OnFieldCharacter.
    rewrite <- app_assoc. reflexivity.
Qed.

Lemma Field_buffers_quoted_field_witness :
  let p := fields (FeedCharacter ":" "\" "x") initial in
  UnixDSVParser.Separator <> UnixDSVParser.Escape
  /\ Escaping p = false /\ InRecord p = true
  /\ deliver_all DSVStringFieldBuffer.ClearField DSVStringFieldBuffer.ClearField
       (fun Field => Field)
       (calls (FeedCharacters ":" "\" (quote ":" "\" (chars "a:b"))) p)
       (chars "x")
     = chars "x" ++ chars "a:b".
Proof.
  intro p.
  assert (Hne : UnixDSVParser.Separator <> UnixDSVParser.Escape) by discriminate.
  exact (conj Hne (conj eq_refl (conj eq_refl
           (proj1 (@Field_buffers_quoted_field
              DSVStringFieldBuffer.ClearField DSVStringFieldBuffer.ClearField
              (fun Field => Field) ":"%char "\"%char (chars "a:b") p (chars "x")
              Hne eq_refl eq_refl))))).
Defined.
